(** * Rieger.h, namespace IO: the file access helpers

    A shallow embedding of the seven helpers of [namespace IO]
    ([Read], [ReadAllBytes], [ReadAllLines], [ReadBlock], [Write],
    [WriteAllBytes], [WriteAllLines]) over a model of the part of the C++
    standard library they call: [std::filesystem::exists] and
    [is_directory], [std::ifstream] and [std::ofstream].

    Scope of the model.
    - A file system is a finite map from paths to nodes.  A node is a
      directory or a regular file; a regular file carries its bytes and
      whether it may be opened for reading and for writing.
    - Streams are unbuffered views on the file system.  No translation is
      done in text mode (as on POSIX systems), so the [openmode] of a
      stream is recorded and has no effect on the bytes transferred.
    - The device never fails in the middle of a transfer and memory is
      unbounded: a [Vector] of any size can be allocated.  The casts
      between [size_t] and [std::streamsize] are the identity on the
      sizes a vector can have and are written [Z.of_N].

    The three functions of [namespace Color] are embedded as well.
    Integers are [Z] with the conversions written out; [f32] and [f64]
    values are the IEEE 754 binary32 and binary64 numbers of
    [SpecFloat], computed with round to nearest even, every operation
    in the precision of its C++ type. *)

From Stdlib Require Import ZArith NArith Lia.
From Stdlib Require Import Strings.Byte.
From Stdlib Require Import Floats.SpecFloat.
From stdpp Require Import gmap strings list.

Local Open Scope Z_scope.

(** ** Type aliases of the header *)

Abbreviation u8 := byte (only parsing).
Abbreviation str := (list byte) (only parsing).
Abbreviation u32 := N (only parsing).
Abbreviation size_t := N (only parsing).
Abbreviation streamsize := Z (only parsing).

(** [Option<T>] is [option T] and [kNone] is [None]. *)
Abbreviation kNone := None (only parsing).

(** A [std::filesystem::path], resolved: the components from the root
    down to the entry. *)
Abbreviation Path := (list string) (only parsing).

#[global] Instance byte_eq_dec : EqDecision byte := Byte.byte_eq_dec.

(** The character [std::getline] stops at and [std::endl] writes. *)
Definition newline : byte := x0a.

(** ** The file system *)

Inductive node : Type :=
| Directory (dwritable : bool)
| Regular (bytes : list byte) (readable writable : bool).

Abbreviation FS := (gmap (list string) node) (only parsing).

Module FileSystem.

(** [std::filesystem::exists]. *)
Definition exists_ (fs : FS) (p : Path) : bool :=
  match fs !! p with
  | Some _ => true
  | None => false
  end.

(** [std::filesystem::is_directory]. *)
Definition is_directory (fs : FS) (p : Path) : bool :=
  match fs !! p with
  | Some (Directory _) => true
  | _ => false
  end.

(** The directory an entry lives in. *)
Definition parent_path (p : Path) : Path := removelast p.

(** The size in bytes of the regular file at [p], if there is one. *)
Definition file_size (fs : FS) (p : Path) : option N :=
  match fs !! p with
  | Some (Regular bytes _ _) => Some (N.of_nat (length bytes))
  | _ => None
  end.

End FileSystem.

Inductive openmode : Type := text_mode | binary_mode.

(** ** std::ifstream *)

Record ifstream : Type := mk_ifstream {
  in_open : bool;          (* is_open() *)
  in_mode : openmode;
  in_bytes : list byte;    (* the bytes of the file the stream reads *)
  gpos : Z;                (* get position, a std::streamoff *)
  eofbit : bool;
  failbit : bool;
  last_gcount : Z          (* what gcount() returns *)
}.

Module Ifstream.

(** [std::ifstream file(filename, mode)].  The file opens when the
    path names a regular file that may be read; otherwise the stream
    is not open and [failbit] is set. *)
Definition open (fs : FS) (filename : Path) (mode : openmode) : ifstream :=
  match fs !! filename with
  | Some (Regular bytes true _) =>
      mk_ifstream true mode bytes 0 false false 0
  | _ => mk_ifstream false mode [] 0 false true 0
  end.

Definition is_open (s : ifstream) : bool := in_open s.

Definition good (s : ifstream) : bool := negb (eofbit s) && negb (failbit s).

Definition fail (s : ifstream) : bool := failbit s.

(** [setstate(failbit)]. *)
Definition set_fail (s : ifstream) : ifstream :=
  mk_ifstream (in_open s) (in_mode s) (in_bytes s) (gpos s)
              (eofbit s) true (last_gcount s).

(** The characters from the get position to the end of the file. *)
Definition remaining (s : ifstream) : list byte :=
  drop (Z.to_nat (gpos s)) (in_bytes s).

(** The range [std::istreambuf_iterator(file), {}]: every character
    from the get position to the end, taken from the stream buffer
    (the flags of the stream are not touched).  A stream that is not
    open has no characters. *)
Definition istreambuf_range (s : ifstream) : list byte :=
  if in_open s then remaining s else [].

(** [file.seekg(off, std::ios::beg)]: clears [eofbit]; on a stream
    that has not failed, moves the get position.  A regular file can
    be positioned at any offset that is not negative, also past its
    end. *)
Definition seekg (off : Z) (s : ifstream) : ifstream :=
  if failbit s then
    mk_ifstream (in_open s) (in_mode s) (in_bytes s) (gpos s)
                false true (last_gcount s)
  else if off <? 0 then
    mk_ifstream (in_open s) (in_mode s) (in_bytes s) (gpos s)
                false true (last_gcount s)
  else
    mk_ifstream (in_open s) (in_mode s) (in_bytes s) off
                false false (last_gcount s).

(** [file.read(buffer.data(), n)]: on a good stream, stores up to [n]
    characters at the front of [buffer]; [gcount] is the number
    stored; when fewer than [n] were available, [eofbit] and
    [failbit] are set.  On a stream that is not good, nothing is
    stored, [gcount] is 0 and [failbit] is set. *)
Definition read (buffer : list byte) (n : streamsize) (s : ifstream)
  : ifstream * list byte :=
  if negb (good s) then
    (mk_ifstream (in_open s) (in_mode s) (in_bytes s) (gpos s)
                 (eofbit s) true 0, buffer)
  else
    let got := take (Z.to_nat n) (remaining s) in
    let c := Z.of_nat (length got) in
    let short := negb (c =? n) in
    (mk_ifstream (in_open s) (in_mode s) (in_bytes s) (gpos s + c)
                 short short c,
     got ++ drop (length got) buffer).

Definition gcount (s : ifstream) : streamsize := last_gcount s.

(** The characters before the first [delim], and whether a [delim]
    was found. *)
Fixpoint extract_until (delim : byte) (l : list byte) : list byte * bool :=
  match l with
  | [] => ([], false)
  | c :: l' =>
      if decide (c = delim) then ([], true)
      else let '(line, found) := extract_until delim l' in (c :: line, found)
  end.

(** [std::getline(file, line)].  On a stream that is not good, sets
    [failbit] and leaves [line] alone.  Otherwise [line] becomes the
    characters up to the next newline, which is consumed and not
    stored; when the end of the file comes first, [eofbit] is set,
    and [failbit] too when no character was extracted. *)
Definition getline (s : ifstream) (line : str) : ifstream * str :=
  if negb (good s) then (set_fail s, line)
  else
    let '(chars, found) := extract_until newline (remaining s) in
    let n := Z.of_nat (length chars) in
    if found then
      (mk_ifstream (in_open s) (in_mode s) (in_bytes s) (gpos s + n + 1)
                   false false (last_gcount s), chars)
    else
      (mk_ifstream (in_open s) (in_mode s) (in_bytes s) (gpos s + n)
                   true (bool_decide (chars = [])) (last_gcount s), chars).

(** [file.close()]. *)
Definition close (s : ifstream) : ifstream :=
  mk_ifstream false (in_mode s) [] 0 (eofbit s) (failbit s) (last_gcount s).

End Ifstream.

(** ** std::ofstream *)

Record ofstream : Type := mk_ofstream {
  out_open : bool;         (* is_open() *)
  out_mode : openmode;
  out_path : list string   (* the file the stream writes *)
}.

Module Ofstream.

(** [std::ofstream outfile(filename, mode)]: opens for output,
    truncating.  A regular file that may be written is emptied and
    keeps its permissions; a path with no entry is created, empty,
    readable and writable, when its parent is a directory that may be
    written.  In every other case the stream is not open and the file
    system is left as it was. *)
Definition open (fs : FS) (filename : Path) (mode : openmode)
  : FS * ofstream :=
  match fs !! filename with
  | Some (Regular _ r true) =>
      (<[filename := Regular [] r true]> fs, mk_ofstream true mode filename)
  | Some _ => (fs, mk_ofstream false mode filename)
  | None =>
      match fs !! FileSystem.parent_path filename with
      | Some (Directory true) =>
          (<[filename := Regular [] true true]> fs,
           mk_ofstream true mode filename)
      | _ => (fs, mk_ofstream false mode filename)
      end
  end.

Definition is_open (s : ofstream) : bool := out_open s.

Definition append_bytes (bs : list byte) (nd : node) : node :=
  match nd with
  | Regular bytes r w => Regular (bytes ++ bs) r w
  | Directory w => Directory w
  end.

(** [outfile.write(s, n)]: puts the first [n] characters of [s] at
    the end of the file. *)
Definition write (s : list byte) (n : streamsize) (fs : FS) (out : ofstream)
  : FS :=
  if out_open out then
    alter (append_bytes (take (Z.to_nat n) s)) (out_path out) fs
  else fs.

(** [outfile << line] for a [std::string]: all its characters. *)
Definition put_str (line : str) (fs : FS) (out : ofstream) : FS :=
  write line (Z.of_nat (length line)) fs out.

(** [outfile << std::endl]: a newline, then a flush, which has
    nothing to do on an unbuffered stream. *)
Definition endl (fs : FS) (out : ofstream) : FS :=
  write [newline] 1 fs out.

(** [outfile.close()]. *)
Definition close (out : ofstream) : ofstream :=
  mk_ofstream false (out_mode out) (out_path out).

End Ofstream.

(** ** namespace IO *)

Module IO.

Import FileSystem.

Definition Read (fs : FS) (filename : Path) : option str :=
  if negb (exists_ fs filename) || is_directory fs filename then kNone
  else
    let file := Ifstream.open fs filename text_mode in
    if negb (Ifstream.is_open file) then kNone
    else
      let content := Ifstream.istreambuf_range file in
      let file := Ifstream.close file in
      Some content.

Definition ReadAllBytes (fs : FS) (filename : Path) : option (list u8) :=
  if negb (exists_ fs filename) || is_directory fs filename then kNone
  else
    let file := Ifstream.open fs filename binary_mode in
    if negb (Ifstream.is_open file) then kNone
    else
      let bytes := Ifstream.istreambuf_range file in
      let file := Ifstream.close file in
      Some bytes.

(** [while (std::getline(file, line)) lines.push_back(line);].  The
    loop is driven by [fuel]; [None] means the fuel ran out before
    the stream failed. *)
Fixpoint getline_loop (fuel : nat) (file : ifstream) (line : str)
    (lines : list str) : option (list str) :=
  match fuel with
  | O => None
  | S fuel' =>
      let '(file, line) := Ifstream.getline file line in
      if Ifstream.fail file then Some lines
      else getline_loop fuel' file line (lines ++ [line])
  end.

(** Every turn of the loop but the last two consumes a character, so
    two more turns than the file has bytes are enough
    ([getline_loop_enough] below). *)
Definition ReadAllLines (fs : FS) (filename : Path)
  : option (list str) :=
  if negb (exists_ fs filename) || is_directory fs filename then kNone
  else
    let file := Ifstream.open fs filename text_mode in
    if negb (Ifstream.is_open file) then kNone
    else
      getline_loop (S (S (length (in_bytes file)))) file [] [].

Definition ReadBlock (fs : FS) (filename : Path) (blockOffset : u32)
    (blockSize : size_t) : option (list u8) :=
  if negb (exists_ fs filename) || is_directory fs filename then kNone
  else
    let file := Ifstream.open fs filename binary_mode in
    if negb (Ifstream.is_open file) then kNone
    else
      let file := Ifstream.seekg (Z.of_N blockOffset) file in
      if negb (Ifstream.good file) then kNone
      else
        let buffer := replicate (N.to_nat blockSize) x00 in
        let '(file, buffer) :=
          Ifstream.read buffer (Z.of_N blockSize) file in
        if negb (Ifstream.gcount file =? Z.of_N blockSize) then kNone
        else Some buffer.

Definition Write (fs : FS) (filename : Path) (content : str) : FS * bool :=
  let '(fs, outfile) := Ofstream.open fs filename text_mode in
  if negb (Ofstream.is_open outfile) then (fs, false)
  else
    let fs := Ofstream.write content (Z.of_nat (length content)) fs outfile in
    let outfile := Ofstream.close outfile in
    (fs, true).

Definition WriteAllBytes (fs : FS) (filename : Path) (bytes : list u8)
  : FS * bool :=
  let '(fs, outfile) := Ofstream.open fs filename binary_mode in
  if negb (Ofstream.is_open outfile) then (fs, false)
  else
    let fs := Ofstream.write bytes (Z.of_nat (length bytes)) fs outfile in
    let outfile := Ofstream.close outfile in
    (fs, true).

Definition WriteAllLines (fs : FS) (filename : Path) (lines : list str)
  : FS * bool :=
  let '(fs, outfile) := Ofstream.open fs filename text_mode in
  if negb (Ofstream.is_open outfile) then (fs, false)
  else
    let fs :=
      fold_left
        (fun fs line => Ofstream.endl (Ofstream.put_str line fs outfile) outfile)
        lines fs in
    let outfile := Ofstream.close outfile in
    (fs, true).

End IO.

(** ** namespace Color *)

Module Color.

(** *** Integer conversions *)

(** Conversion to [u8] and to [u32]. *)
Definition to_u8 (z : Z) : Z := z mod 2 ^ 8.
Definition to_u32 (z : Z) : Z := z mod 2 ^ 32.

(** Conversion to [int], 32 bits in two's complement. *)
Definition to_int (z : Z) : Z := (z + 2 ^ 31) mod 2 ^ 32 - 2 ^ 31.

(** [x << k] on an [int]: the value congruent to [x * 2^k] that an
    [int] holds. *)
Definition shl_int (x k : Z) : Z := to_int (Z.shiftl x k).

(** *** Floating point *)

(** [f32] and [f64] values are [spec_float]s of precision 24 and 53. *)
Definition f32_mul : spec_float → spec_float → spec_float := SFmul 24 128.
Definition f64_div : spec_float → spec_float → spec_float := SFdiv 53 1024.

(** The literals [255.0f] and [255.0], and 0 and 1 as [f32]. *)
Definition f32_255 : spec_float := binary_normalize 24 128 255 0 false.
Definition f64_255 : spec_float := binary_normalize 53 1024 255 0 false.
Definition f32_0 : spec_float := S754_zero false.
Definition f32_1 : spec_float := binary_normalize 24 128 1 0 false.

(** A [u32] converted to [f64], which is exact. *)
Definition f64_of_u32 (z : Z) : spec_float := binary_normalize 53 1024 z 0 false.

(** [CAST<f32>] of an [f64]: rounding to the nearest [f32]. *)
Definition f32_of_f64 (x : spec_float) : spec_float :=
  match x with
  | S754_finite s m e => binary_round 24 128 s m e
  | _ => x
  end.

(** The integral part of a finite number, rounding toward zero. *)
Definition truncate (x : spec_float) : option Z :=
  match x with
  | S754_zero _ => Some 0
  | S754_finite s m e =>
      Some (cond_Zopp s
              (if 0 <=? e then Zpos m * 2 ^ e else Zpos m / 2 ^ (- e)))
  | _ => None
  end.

(** [CAST<u8>] of an [f32]: the integral part, when a [u8] can hold
    it; the conversion is undefined otherwise ([None]). *)
Definition u8_of_f32 (x : spec_float) : option Z :=
  match truncate x with
  | Some z => if (0 <=? z) && (z <? 2 ^ 8) then Some z else None
  | None => None
  end.

(** *** The functions *)

(** [HexToRGBA(hex, f32& r, f32& g, f32& b, f32& a)]; the result is
    [(r, g, b, a)]. *)
Definition HexToRGBA_f32 (hex : Z)
  : spec_float * spec_float * spec_float * spec_float :=
  let alphaByte := to_u8 (Z.land (Z.shiftr hex 24) 255) in
  let redByte := to_u8 (Z.land (Z.shiftr hex 16) 255) in
  let greenByte := to_u8 (Z.land (Z.shiftr hex 8) 255) in
  let blueByte := to_u8 (Z.land hex 255) in
  let a := f32_of_f64 (f64_div (f64_of_u32 (to_u32 alphaByte)) f64_255) in
  let r := f32_of_f64 (f64_div (f64_of_u32 (to_u32 redByte)) f64_255) in
  let g := f32_of_f64 (f64_div (f64_of_u32 (to_u32 greenByte)) f64_255) in
  let b := f32_of_f64 (f64_div (f64_of_u32 (to_u32 blueByte)) f64_255) in
  (r, g, b, a).

(** [HexToRGBA(hex, u32& r, u32& g, u32& b, u32& a)]; the result is
    [(r, g, b, a)]. *)
Definition HexToRGBA_u32 (hex : Z) : Z * Z * Z * Z :=
  let alphaByte := to_u8 (Z.land (Z.shiftr hex 24) 255) in
  let redByte := to_u8 (Z.land (Z.shiftr hex 16) 255) in
  let greenByte := to_u8 (Z.land (Z.shiftr hex 8) 255) in
  let blueByte := to_u8 (Z.land hex 255) in
  let a := to_u32 alphaByte in
  let r := to_u32 redByte in
  let g := to_u32 greenByte in
  let b := to_u32 blueByte in
  (r, g, b, a).

(** [RGBAToHex(r, g, b, a)].  The bytes are promoted to [int] before
    they are shifted, the [int]s are combined and the result is
    converted to [u32].  [None] when a channel times 255 has no [u8]
    value. *)
Definition RGBAToHex (r g b a : spec_float) : option Z :=
  match u8_of_f32 (f32_mul r f32_255), u8_of_f32 (f32_mul g f32_255),
        u8_of_f32 (f32_mul b f32_255), u8_of_f32 (f32_mul a f32_255) with
  | Some redByte, Some greenByte, Some blueByte, Some alphaByte =>
      Some (to_u32
              (Z.lor (Z.lor (Z.lor (shl_int alphaByte 24) (shl_int redByte 16))
                            (shl_int greenByte 8))
                     blueByte))
  | _, _, _, _ => None
  end.

End Color.

(** ** What the writes store *)

(** The bytes [WriteAllLines] puts in the file: every line followed by
    one newline. *)
Definition terminated_lines (lines : list (list byte)) : list byte :=
  concat (map (λ line, line ++ [newline]) lines).

(** What [ReadAllLines] makes of the characters after the last
    newline of a file: one more line when there are any, nothing when
    the file ends with a newline or is empty. *)
Definition unterminated_line (tail : list byte) : list (list byte) :=
  if decide (tail = []) then [] else [tail].

(** ** Sample file systems *)

Definition sample_bytes : list byte :=
  [x30; x31; x32; x33; x34; x35; x36; x37; x38; x39].

Definition hello_world : list byte :=
  [x68; x65; x6c; x6c; x6f; x0a; x77; x6f; x72; x6c; x64].

Definition tmp_dir : list string := ["tmp"%string].
Definition data_bin : list string := ["data.bin"%string].
Definition wo_log : list string := ["wo.log"%string].
Definition ro_txt : list string := ["ro.txt"%string].
Definition tmp_new : list string := ["tmp"%string; "new.txt"%string].
Definition missing : list string := ["nope"%string; "file"%string].

(** A root directory holding a directory [tmp], a ten-byte file
    [data.bin], a file [wo.log] that may be written and not read, and a
    file [ro.txt] that may be read and not written. *)
Definition sample_fs : gmap (list string) node :=
  <[ ro_txt := Regular hello_world true false ]>
  (<[ wo_log := Regular [x61; x62; x63] false true ]>
  (<[ data_bin := Regular sample_bytes true true ]>
  (<[ tmp_dir := Directory true ]>
  (<[ [] := Directory true ]> ∅)))).

(** ** What the streams see *)

Section Streams.

Context (fs : gmap (list string) node) (p : list string).

(** An input stream opens exactly on a readable regular file. *)
Lemma ifstream_open_iff (mode : openmode) :
  Ifstream.is_open (Ifstream.open fs p mode) = true ↔
  ∃ bytes w, fs !! p = Some (Regular bytes true w).
Proof.
  unfold Ifstream.is_open, Ifstream.open.
  destruct (fs !! p) as [[d|bytes [] w]|]; simpl; split;
    try discriminate; try (intros (? & ? & ?); discriminate); eauto.
Qed.

Lemma ifstream_open_regular (mode : openmode) bytes w :
  fs !! p = Some (Regular bytes true w) →
  Ifstream.open fs p mode = mk_ifstream true mode bytes 0 false false 0.
Proof. intros H. unfold Ifstream.open. by rewrite H. Qed.


Lemma guard_regular bytes r w :
  fs !! p = Some (Regular bytes r w) →
  negb (FileSystem.exists_ fs p) || FileSystem.is_directory fs p = false.
Proof.
  intros H. unfold FileSystem.exists_, FileSystem.is_directory.
  by rewrite H.
Qed.

Lemma guard_absent_or_directory :
  FileSystem.exists_ fs p = false ∨ FileSystem.is_directory fs p = true →
  negb (FileSystem.exists_ fs p) || FileSystem.is_directory fs p = true.
Proof. intros [-> | ->]; [done | apply orb_true_r]. Qed.

(** The whole-file reads return the stored bytes of a readable file
    and are absent on everything else. *)
Lemma Read_lookup :
  IO.Read fs p =
  match fs !! p with
  | Some (Regular bytes true _) => Some bytes
  | _ => None
  end.
Proof.
  unfold IO.Read, FileSystem.exists_, FileSystem.is_directory,
    Ifstream.open, Ifstream.is_open, Ifstream.istreambuf_range,
    Ifstream.remaining.
  by destruct (fs !! p) as [[d|bytes [] w]|].
Qed.

Lemma ReadAllBytes_lookup :
  IO.ReadAllBytes fs p =
  match fs !! p with
  | Some (Regular bytes true _) => Some bytes
  | _ => None
  end.
Proof.
  unfold IO.ReadAllBytes, FileSystem.exists_, FileSystem.is_directory,
    Ifstream.open, Ifstream.is_open, Ifstream.istreambuf_range,
    Ifstream.remaining.
  by destruct (fs !! p) as [[d|bytes [] w]|].
Qed.

End Streams.

(** ** Block reads *)

Lemma read_buffer_full (n : nat) (avail : list byte) :
  (n ≤ length avail)%nat →
  take n avail ++ drop (length (take n avail)) (replicate n x00) = take n avail.
Proof.
  intros Hn. rewrite length_take, Nat.min_l by done.
  rewrite drop_ge by (rewrite length_replicate; lia).
  apply app_nil_r.
Qed.

(** On a readable regular file a block read returns the [blockSize]
    bytes at [blockOffset] when that many are there, and is absent
    otherwise. *)
Lemma ReadBlock_regular (fs : gmap (list string) node) (p : list string)
    bytes w (blockOffset blockSize : N) :
  fs !! p = Some (Regular bytes true w) →
  IO.ReadBlock fs p blockOffset blockSize =
  let avail := drop (N.to_nat blockOffset) bytes in
  if decide (N.to_nat blockSize ≤ length avail)%nat
  then Some (take (N.to_nat blockSize) avail)
  else None.
Proof.
  intros H. unfold IO.ReadBlock.
  rewrite (guard_regular _ _ _ _ _ H), (ifstream_open_regular _ _ _ _ _ H).
  cbn [Ifstream.is_open in_open negb Ifstream.seekg failbit].
  replace (Z.of_N blockOffset <? 0) with false by (symmetry; apply Z.ltb_ge; lia).
  cbn [Ifstream.good eofbit failbit negb andb Ifstream.read Ifstream.remaining
       in_bytes gpos in_open in_mode Ifstream.gcount last_gcount].
  unfold Ifstream.remaining; cbn [in_bytes gpos].
  replace (Z.to_nat (Z.of_N blockOffset)) with (N.to_nat blockOffset) by lia.
  replace (Z.to_nat (Z.of_N blockSize)) with (N.to_nat blockSize) by lia.
  set (avail := drop (N.to_nat blockOffset) bytes).
  cbn zeta. case_decide as Hle.
  - rewrite read_buffer_full by done.
    rewrite length_take, Nat.min_l by done.
    replace (Z.of_nat (N.to_nat blockSize) =? Z.of_N blockSize) with true
      by (symmetry; apply Z.eqb_eq; lia).
    done.
  - rewrite length_take, Nat.min_r by lia.
    replace (Z.of_nat (length avail) =? Z.of_N blockSize) with false
      by (symmetry; apply Z.eqb_neq; lia).
    done.
Qed.

(** ** Output streams *)

Section Output.

Context (fs : gmap (list string) node) (p : list string).

(** A stream that opened has emptied or created the file and changed
    nothing else. *)
Lemma ofstream_open_opened (mode : openmode) fs' out :
  Ofstream.open fs p mode = (fs', out) →
  Ofstream.is_open out = true →
  out_path out = p ∧ ∃ r, fs' = <[p := Regular [] r true]> fs.
Proof.
  unfold Ofstream.open, Ofstream.is_open.
  destruct (fs !! p) as [[d|bytes r []]|]; simpl.
  - by intros [= <- <-].
  - intros [= <- <-]. eauto.
  - by intros [= <- <-].
  - destruct (fs !! FileSystem.parent_path p) as [[[]|? ? ?]|];
      intros [= <- <-]; simpl; try done; eauto.
Qed.

(** A stream that did not open has left the file system alone. *)
Lemma ofstream_open_failed (mode : openmode) fs' out :
  Ofstream.open fs p mode = (fs', out) →
  Ofstream.is_open out = false →
  fs' = fs.
Proof.
  unfold Ofstream.open, Ofstream.is_open.
  destruct (fs !! p) as [[d|bytes r []]|]; simpl.
  - by intros [= <- <-].
  - by intros [= <- <-].
  - by intros [= <- <-].
  - destruct (fs !! FileSystem.parent_path p) as [[[]|? ? ?]|];
      by intros [= <- <-].
Qed.

(** Whether the file opens for writing does not depend on the mode. *)
Lemma ofstream_open_mode (m1 m2 : openmode) :
  Ofstream.is_open (Ofstream.open fs p m1).2 =
  Ofstream.is_open (Ofstream.open fs p m2).2.
Proof.
  unfold Ofstream.open, Ofstream.is_open.
  destruct (fs !! p) as [[d|bytes r []]|]; simpl; try done.
  by destruct (fs !! FileSystem.parent_path p) as [[[]|? ? ?]|].
Qed.

(** A file that is writable keeps its read permission when it is
    reopened for output; a new file is readable. *)
Lemma ofstream_open_readable (mode : openmode) fs' out bytes r w :
  Ofstream.open fs p mode = (fs', out) →
  Ofstream.is_open out = true →
  fs !! p = Some (Regular bytes r w) →
  fs' = <[p := Regular [] r true]> fs.
Proof.
  unfold Ofstream.open, Ofstream.is_open. intros Ho Hopen Hp.
  rewrite Hp in Ho. destruct w; simplify_eq; done.
Qed.

End Output.

Lemma write_opened (fs : gmap (list string) node) out (s bytes : list byte) r w :
  out_open out = true →
  Ofstream.write s (Z.of_nat (length s)) (<[out_path out := Regular bytes r w]> fs) out
  = <[out_path out := Regular (bytes ++ s) r w]> fs.
Proof.
  intros Ho. unfold Ofstream.write. rewrite Ho, Nat2Z.id, firstn_all.
  by rewrite alter_insert_eq.
Qed.

Lemma put_str_opened (fs : gmap (list string) node) out (line bytes : list byte) r w :
  out_open out = true →
  Ofstream.put_str line (<[out_path out := Regular bytes r w]> fs) out
  = <[out_path out := Regular (bytes ++ line) r w]> fs.
Proof. apply write_opened. Qed.

Lemma endl_opened (fs : gmap (list string) node) out (bytes : list byte) r w :
  out_open out = true →
  Ofstream.endl (<[out_path out := Regular bytes r w]> fs) out
  = <[out_path out := Regular (bytes ++ [newline]) r w]> fs.
Proof. apply (write_opened fs out [newline]). Qed.

Lemma write_lines_opened (lines : list (list byte)) :
  ∀ (fs : gmap (list string) node) out bytes r w,
    out_open out = true →
    fold_left
      (λ fs line, Ofstream.endl (Ofstream.put_str line fs out) out)
      lines (<[out_path out := Regular bytes r w]> fs)
    = <[out_path out := Regular (bytes ++ terminated_lines lines) r w]> fs.
Proof.
  induction lines as [|line lines IH]; intros fs out bytes r w Ho;
    cbn [fold_left].
  - unfold terminated_lines. simpl. by rewrite app_nil_r.
  - rewrite put_str_opened, endl_opened, IH by done.
    unfold terminated_lines. simpl. by rewrite <- !app_assoc.
Qed.

(** What a successful write leaves in the file system. *)
Lemma Write_stored (fs fs' : gmap (list string) node) p (content : list byte) :
  IO.Write fs p content = (fs', true) →
  ∃ r, fs' = <[p := Regular content r true]> fs.
Proof.
  unfold IO.Write.
  destruct (Ofstream.open fs p text_mode) as [fs1 out] eqn:Ho.
  destruct (Ofstream.is_open out) eqn:Hopen; simpl; [|discriminate].
  destruct (ofstream_open_opened _ _ _ _ _ Ho Hopen) as [<- [r ->]].
  intros [= <-]. exists r. by rewrite write_opened.
Qed.

Lemma WriteAllBytes_stored (fs fs' : gmap (list string) node) p
    (bytes : list byte) :
  IO.WriteAllBytes fs p bytes = (fs', true) →
  ∃ r, fs' = <[p := Regular bytes r true]> fs.
Proof.
  unfold IO.WriteAllBytes.
  destruct (Ofstream.open fs p binary_mode) as [fs1 out] eqn:Ho.
  destruct (Ofstream.is_open out) eqn:Hopen; simpl; [|discriminate].
  destruct (ofstream_open_opened _ _ _ _ _ Ho Hopen) as [<- [r ->]].
  intros [= <-]. exists r. by rewrite write_opened.
Qed.

Lemma WriteAllLines_stored (fs fs' : gmap (list string) node) p
    (lines : list (list byte)) :
  IO.WriteAllLines fs p lines = (fs', true) →
  ∃ r, fs' = <[p := Regular (terminated_lines lines) r true]> fs.
Proof.
  unfold IO.WriteAllLines.
  destruct (Ofstream.open fs p text_mode) as [fs1 out] eqn:Ho.
  destruct (Ofstream.is_open out) eqn:Hopen; simpl; [|discriminate].
  destruct (ofstream_open_opened _ _ _ _ _ Ho Hopen) as [<- [r ->]].
  intros [= <-]. exists r. by rewrite write_lines_opened.
Qed.

(** ** Reading lines *)

Lemma extract_until_line (line rest : list byte) :
  newline ∉ line →
  Ifstream.extract_until newline (line ++ newline :: rest) = (line, true).
Proof.
  induction line as [|c line IH]; intros Hnl;
    cbn [app Ifstream.extract_until].
  - by rewrite decide_True.
  - apply not_elem_of_cons in Hnl as [Hc Hl].
    rewrite decide_False by done. by rewrite IH.
Qed.


Lemma length_terminated_lines (lines : list (list byte)) :
  (length lines ≤ length (terminated_lines lines))%nat.
Proof.
  unfold terminated_lines.
  induction lines as [|l lines IH]; simpl; [done|].
  rewrite !length_app. simpl. lia.
Qed.

Lemma remaining_advance (file : ifstream) (n : nat) m bytes e f g :
  0 ≤ gpos file →
  Ifstream.remaining (mk_ifstream m bytes (in_bytes file)
                                  (gpos file + Z.of_nat n) e f g)
  = drop n (Ifstream.remaining file).
Proof.
  intros Hpos. unfold Ifstream.remaining. simpl.
  rewrite drop_drop. f_equal. lia.
Qed.

(** The loop on a file made of newline-terminated lines collects
    exactly these lines, in one turn per line and a last one that
    fails at the end of the file. *)
Lemma getline_loop_lines (lines : list (list byte)) :
  ∀ (fuel : nat) (file : ifstream) (line : list byte) (acc : list (list byte)),
    Ifstream.good file = true →
    0 ≤ gpos file →
    Ifstream.remaining file = terminated_lines lines →
    Forall (λ l, newline ∉ l) lines →
    (length lines < fuel)%nat →
    IO.getline_loop fuel file line acc = Some (acc ++ lines).
Proof.
  induction lines as [|l lines IH];
    intros fuel file line acc Hgood Hpos Hrem Hnl Hfuel;
    (destruct fuel as [|fuel]; [simpl in Hfuel; lia|]);
    cbn [IO.getline_loop]; unfold Ifstream.getline;
    rewrite Hgood, Hrem; cbn [negb].
  - simpl. by rewrite app_nil_r.
  - apply Forall_cons in Hnl as [Hl Hnl].
    change (terminated_lines (l :: lines))
      with ((l ++ [newline]) ++ terminated_lines lines).
    rewrite <- app_assoc. cbn [app].
    rewrite extract_until_line by done.
    cbn [Ifstream.fail failbit].
    rewrite (cons_middle l acc lines), app_assoc. apply IH; try done.
    + simpl. lia.
    + replace (gpos file + Z.of_nat (length l) + 1)
        with (gpos file + Z.of_nat (length l + 1)) by lia.
      rewrite remaining_advance, Hrem by done.
      change (terminated_lines (l :: lines))
        with ((l ++ [newline]) ++ terminated_lines lines).
      apply drop_app_length'. rewrite length_app. simpl. lia.
    + simpl in Hfuel. lia.
Qed.



(** Reading back a file of newline-terminated lines. *)
Lemma ReadAllLines_terminated (fs : gmap (list string) node) (p : list string)
    (lines : list (list byte)) w :
  fs !! p = Some (Regular (terminated_lines lines) true w) →
  Forall (λ l, newline ∉ l) lines →
  IO.ReadAllLines fs p = Some lines.
Proof.
  intros H Hnl. unfold IO.ReadAllLines.
  rewrite (guard_regular _ _ _ _ _ H), (ifstream_open_regular _ _ _ _ _ H).
  cbn [Ifstream.is_open in_open negb in_bytes].
  apply (getline_loop_lines lines _ _ [] []); try done.
  pose proof (length_terminated_lines lines). lia.
Qed.

(** ** Readable files *)

Lemma ReadBlock_unreadable (fs : gmap (list string) node) (p : list string)
    (blockOffset blockSize : N) :
  Ifstream.is_open (Ifstream.open fs p binary_mode) = false →
  IO.ReadBlock fs p blockOffset blockSize = None.
Proof.
  intros H. unfold IO.ReadBlock. rewrite H.
  by destruct (negb (FileSystem.exists_ fs p) || FileSystem.is_directory fs p).
Qed.


Lemma file_size_regular (fs : gmap (list string) node) (p : list string) sz :
  FileSystem.file_size fs p = Some sz →
  ∃ bytes r w, fs !! p = Some (Regular bytes r w) ∧ sz = N.of_nat (length bytes).
Proof.
  unfold FileSystem.file_size.
  destruct (fs !! p) as [[d|bytes r w]|]; try discriminate.
  intros [= <-]. eauto.
Qed.

(** A file that is regular and opens for reading. *)
Lemma readable_regular (fs : gmap (list string) node) (p : list string) sz
    (mode : openmode) :
  FileSystem.file_size fs p = Some sz →
  Ifstream.is_open (Ifstream.open fs p mode) = true →
  ∃ bytes w, fs !! p = Some (Regular bytes true w) ∧ sz = N.of_nat (length bytes).
Proof.
  intros Hsz Hopen.
  apply file_size_regular in Hsz as (bytes & r & w & Hp & ->).
  apply ifstream_open_iff in Hopen as (bytes' & w' & Hp').
  rewrite Hp in Hp'. injection Hp' as <- -> <-. eauto.
Qed.

(** After a successful write the file holds [data]; when it also opens
    for reading, its read permission is set. *)
Lemma stored_readable (fs : gmap (list string) node) (p : list string)
    (data : list byte) r (mode : openmode) :
  Ifstream.is_open (Ifstream.open (<[p := Regular data r true]> fs) p mode) = true →
  <[p := Regular data r true]> fs !! p = Some (Regular data true true).
Proof.
  intros Hopen. apply ifstream_open_iff in Hopen as (bytes & w & Hp).
  rewrite lookup_insert_eq in Hp. injection Hp as <- -> <-.
  apply lookup_insert_eq.
Qed.

(** * The claims *)

Import IO.

(** ** Block reads (C1, C5, C6, C10) *)




(** C5: for every readable regular file, [ReadBlock] with offset 0 and
    block length equal to the file's size returns the same byte
    sequence as [ReadAllBytes] on the same path, and both are
    present. *)
Theorem ReadBlock_whole_file (fs : gmap (list string) node)
    (p : list string) (sz : N) :
  FileSystem.file_size fs p = Some sz →
  Ifstream.is_open (Ifstream.open fs p binary_mode) = true →
  is_Some (ReadAllBytes fs p) ∧
  ReadBlock fs p 0 sz = ReadAllBytes fs p.
Proof.
  intros Hsz Hopen.
  destruct (readable_regular _ _ _ _ Hsz Hopen) as (bytes & w & Hp & ->).
  rewrite ReadAllBytes_lookup, Hp. split; [by eexists|].
  rewrite (ReadBlock_regular _ _ _ _ _ _ Hp). cbn zeta.
  change (N.to_nat 0) with 0%nat. rewrite drop_0, Nat2N.id.
  rewrite decide_True by done. by rewrite firstn_all.
Qed.

Lemma ReadBlock_whole_file_witness :
  FileSystem.file_size sample_fs data_bin = Some 10%N ∧
  Ifstream.is_open (Ifstream.open sample_fs data_bin binary_mode) = true ∧
  ReadBlock sample_fs data_bin 0 10 = ReadAllBytes sample_fs data_bin.
Proof.
  do 2 (split; [vm_compute; reflexivity|]).
  apply (ReadBlock_whole_file sample_fs data_bin 10); vm_compute; reflexivity.
Defined.

(** C6: for every 10-byte readable regular file, [ReadBlock] with
    offset 5 and length 5 returns exactly the last 5 bytes of the file
    (the bytes [ReadAllBytes] returns, without all but the last five),
    and [ReadBlock] with offset 5 and length 6 returns an absent
    result. *)
Theorem ReadBlock_ten_byte_file (fs : gmap (list string) node)
    (p : list string) :
  FileSystem.file_size fs p = Some 10%N →
  Ifstream.is_open (Ifstream.open fs p binary_mode) = true →
  ∃ bytes : list byte,
    ReadAllBytes fs p = Some bytes ∧
    ReadBlock fs p 5 5 = Some (drop (length bytes - 5) bytes) ∧
    length (drop (length bytes - 5) bytes) = 5%nat ∧
    ReadBlock fs p 5 6 = None.
Proof.
  intros Hsz Hopen.
  destruct (readable_regular _ _ _ _ Hsz Hopen) as (bytes & w & Hp & Hlen).
  assert (length bytes = 10%nat) as Hten by lia.
  exists bytes. rewrite ReadAllBytes_lookup, Hp.
  rewrite !(ReadBlock_regular _ _ _ _ _ _ Hp). cbn zeta.
  rewrite length_drop, Hten.
  change (N.to_nat 5) with 5%nat. change (N.to_nat 6) with 6%nat.
  change (10 - 5)%nat with 5%nat.
  rewrite decide_True, decide_False by lia.
  split; [done|]. split; [|split; [|done]].
  - f_equal. apply take_ge. rewrite length_drop. lia.
  - rewrite length_drop. lia.
Qed.

Lemma ReadBlock_ten_byte_file_witness :
  FileSystem.file_size sample_fs data_bin = Some 10%N ∧
  Ifstream.is_open (Ifstream.open sample_fs data_bin binary_mode) = true ∧
  ∃ bytes : list byte,
    ReadAllBytes sample_fs data_bin = Some bytes ∧
    ReadBlock sample_fs data_bin 5 5 = Some (drop (length bytes - 5) bytes) ∧
    length (drop (length bytes - 5) bytes) = 5%nat ∧
    ReadBlock sample_fs data_bin 5 6 = None.
Proof.
  split; [vm_compute; reflexivity|]. split; [vm_compute; reflexivity|].
  apply (ReadBlock_ten_byte_file sample_fs data_bin); vm_compute; reflexivity.
Defined.



(** ** Reads of paths that are missing or directories (C7) *)

(** C7: for every path that does not exist, and for every path that is
    a directory, each read operation ([Read], [ReadAllBytes],
    [ReadAllLines], [ReadBlock] at every offset and length) returns an
    absent result. *)
Theorem reads_absent_without_file (fs : gmap (list string) node)
    (p : list string) :
  FileSystem.exists_ fs p = false ∨ FileSystem.is_directory fs p = true →
  Read fs p = None ∧
  ReadAllBytes fs p = None ∧
  ReadAllLines fs p = None ∧
  ∀ blockOffset blockSize : N, ReadBlock fs p blockOffset blockSize = None.
Proof.
  intros H. apply guard_absent_or_directory in H.
  unfold Read, ReadAllBytes, ReadAllLines, ReadBlock. by rewrite H.
Qed.

Lemma reads_absent_without_file_witness :
  (FileSystem.exists_ sample_fs missing = false ∧
   Read sample_fs missing = None ∧
   ReadAllBytes sample_fs missing = None ∧
   ReadAllLines sample_fs missing = None ∧
   ∀ blockOffset blockSize : N,
     ReadBlock sample_fs missing blockOffset blockSize = None) ∧
  (FileSystem.is_directory sample_fs tmp_dir = true ∧
   Read sample_fs tmp_dir = None ∧
   ReadAllBytes sample_fs tmp_dir = None ∧
   ReadAllLines sample_fs tmp_dir = None ∧
   ∀ blockOffset blockSize : N,
     ReadBlock sample_fs tmp_dir blockOffset blockSize = None).
Proof.
  split; (split; [vm_compute; reflexivity|]).
  - apply (reads_absent_without_file sample_fs missing).
    left. vm_compute. reflexivity.
  - apply (reads_absent_without_file sample_fs tmp_dir).
    right. vm_compute. reflexivity.
Defined.

(** ** Round trips (C2, C3, C4) *)

(** C2, as stated, fails: [wo.log] may be written and not read, so
    [Write] succeeds on it and [Read] then returns an absent result. *)
Lemma Write_Read_write_only_file :
  (Write sample_fs wo_log hello_world).2 = true ∧
  Read (Write sample_fs wo_log hello_world).1 wo_log = None.
Proof. split; vm_compute; reflexivity. Qed.

(** C2, amended: for every path and every text content C, if [Write] of
    C to the path succeeds and the file can then be opened for reading,
    [Read] on that path returns a present result equal to exactly C. *)
Theorem Write_Read_roundtrip (fs fs' : gmap (list string) node)
    (p : list string) (content : list byte) :
  Write fs p content = (fs', true) →
  Ifstream.is_open (Ifstream.open fs' p text_mode) = true →
  Read fs' p = Some content.
Proof.
  intros Hw Hopen. apply Write_stored in Hw as [r ->].
  by rewrite Read_lookup, (stored_readable _ _ _ _ _ Hopen).
Qed.

Lemma Write_Read_roundtrip_witness :
  Write sample_fs tmp_new hello_world
    = ((Write sample_fs tmp_new hello_world).1, true) ∧
  Ifstream.is_open
    (Ifstream.open (Write sample_fs tmp_new hello_world).1 tmp_new text_mode)
    = true ∧
  Read (Write sample_fs tmp_new hello_world).1 tmp_new = Some hello_world.
Proof.
  do 2 (split; [vm_compute; reflexivity|]).
  apply (Write_Read_roundtrip sample_fs _ tmp_new hello_world);
    vm_compute; reflexivity.
Defined.

(** C3, as stated, fails: [WriteAllBytes] succeeds on [wo.log] and
    [ReadAllBytes] then returns an absent result. *)
Lemma WriteAllBytes_ReadAllBytes_write_only_file :
  (WriteAllBytes sample_fs wo_log sample_bytes).2 = true ∧
  ReadAllBytes (WriteAllBytes sample_fs wo_log sample_bytes).1 wo_log = None.
Proof. split; vm_compute; reflexivity. Qed.

(** C3, amended: for every path and every byte sequence B, if
    [WriteAllBytes] of B to the path succeeds and the file can then be
    opened for reading, [ReadAllBytes] on that path returns a present
    sequence equal to B in both length and byte values. *)
Theorem WriteAllBytes_ReadAllBytes_roundtrip (fs fs' : gmap (list string) node)
    (p : list string) (bytes : list byte) :
  WriteAllBytes fs p bytes = (fs', true) →
  Ifstream.is_open (Ifstream.open fs' p binary_mode) = true →
  ReadAllBytes fs' p = Some bytes.
Proof.
  intros Hw Hopen. apply WriteAllBytes_stored in Hw as [r ->].
  by rewrite ReadAllBytes_lookup, (stored_readable _ _ _ _ _ Hopen).
Qed.

Lemma WriteAllBytes_ReadAllBytes_roundtrip_witness :
  WriteAllBytes sample_fs data_bin [x00; xff; x0a; x00]
    = ((WriteAllBytes sample_fs data_bin [x00; xff; x0a; x00]).1, true) ∧
  Ifstream.is_open
    (Ifstream.open (WriteAllBytes sample_fs data_bin [x00; xff; x0a; x00]).1
                   data_bin binary_mode) = true ∧
  ReadAllBytes (WriteAllBytes sample_fs data_bin [x00; xff; x0a; x00]).1 data_bin
    = Some [x00; xff; x0a; x00].
Proof.
  do 2 (split; [vm_compute; reflexivity|]).
  apply (WriteAllBytes_ReadAllBytes_roundtrip sample_fs _ data_bin);
    vm_compute; reflexivity.
Defined.

(** C4, as stated, fails: [WriteAllLines] of two lines without a
    newline succeeds on [wo.log] and [ReadAllLines] then returns an
    absent result. *)
Lemma WriteAllLines_ReadAllLines_write_only_file :
  Forall (λ l, newline ∉ l) [[x68; x69]; [x79; x6f]] ∧
  (WriteAllLines sample_fs wo_log [[x68; x69]; [x79; x6f]]).2 = true ∧
  ReadAllLines (WriteAllLines sample_fs wo_log [[x68; x69]; [x79; x6f]]).1 wo_log
    = None.
Proof.
  split; [|split; vm_compute; reflexivity].
  repeat constructor; intros H; apply (bool_decide_pack _) in H;
    vm_compute in H; exact H.
Qed.

(** C4, amended: for every path and every sequence of strings L in
    which no element contains an embedded newline, if [WriteAllLines]
    of L to the path succeeds and the file can then be opened for
    reading, [ReadAllLines] on that path returns exactly L: same
    elements, same order, one entry per element of L. *)
Theorem WriteAllLines_ReadAllLines_roundtrip (fs fs' : gmap (list string) node)
    (p : list string) (lines : list (list byte)) :
  Forall (λ l, newline ∉ l) lines →
  WriteAllLines fs p lines = (fs', true) →
  Ifstream.is_open (Ifstream.open fs' p text_mode) = true →
  ReadAllLines fs' p = Some lines.
Proof.
  intros Hnl Hw Hopen. apply WriteAllLines_stored in Hw as [r ->].
  apply (ReadAllLines_terminated _ _ _ true); [|done].
  by apply stored_readable with text_mode.
Qed.

Lemma no_newline_sample :
  Forall (λ l, newline ∉ l) [[x61]; []; [x62; x0d]; []].
Proof.
  repeat constructor; intros H; apply (bool_decide_pack _) in H;
    vm_compute in H; exact H.
Defined.

Lemma WriteAllLines_ReadAllLines_roundtrip_witness :
  Forall (λ l, newline ∉ l) [[x61]; []; [x62; x0d]; []] ∧
  WriteAllLines sample_fs tmp_new [[x61]; []; [x62; x0d]; []]
    = ((WriteAllLines sample_fs tmp_new [[x61]; []; [x62; x0d]; []]).1, true) ∧
  Ifstream.is_open
    (Ifstream.open (WriteAllLines sample_fs tmp_new [[x61]; []; [x62; x0d]; []]).1
                   tmp_new text_mode) = true ∧
  ReadAllLines (WriteAllLines sample_fs tmp_new [[x61]; []; [x62; x0d]; []]).1 tmp_new
    = Some [[x61]; []; [x62; x0d]; []].
Proof.
  split; [exact no_newline_sample|].
  do 2 (split; [vm_compute; reflexivity|]).
  apply (WriteAllLines_ReadAllLines_roundtrip sample_fs _ tmp_new);
    [exact no_newline_sample | vm_compute; reflexivity..].
Defined.

(** The example of the specification: the text "hello\nworld" written
    to a path and read back as lines gives the two lines. *)
Example hello_world_lines :
  ReadAllLines (Write sample_fs tmp_new hello_world).1 tmp_new
  = Some [[x68; x65; x6c; x6c; x6f]; [x77; x6f; x72; x6c; x64]].
Proof. vm_compute. reflexivity. Qed.

(** ** The flag a write returns (C8) *)


(** ** Writes replace the contents (C9) *)

(** C9, as stated, fails: [WriteAllLines] succeeds on [wo.log], which
    may be written and not read, and the whole-file reads then return
    an absent result instead of the content just written. *)
Lemma write_then_whole_file_read_write_only :
  (WriteAllLines sample_fs wo_log [[x6f; x6b]]).2 = true ∧
  Read (WriteAllLines sample_fs wo_log [[x6f; x6b]]).1 wo_log = None ∧
  ReadAllBytes (WriteAllLines sample_fs wo_log [[x6f; x6b]]).1 wo_log = None.
Proof. repeat split; vm_compute; reflexivity. Qed.

(** C9, amended: every successful write operation ([Write],
    [WriteAllBytes], [WriteAllLines], which writes every line followed
    by one newline) replaces the file's prior contents entirely: after
    a successful call on a path, a whole-file read that can open the
    file observes exactly the content just written, regardless of what
    the file contained before the call. *)
Theorem write_replaces_contents (fs fs' : gmap (list string) node)
    (p : list string) (data : list byte) :
  Write fs p data = (fs', true) ∨
  WriteAllBytes fs p data = (fs', true) ∨
  (∃ lines, data = terminated_lines lines ∧
            WriteAllLines fs p lines = (fs', true)) →
  Ifstream.is_open (Ifstream.open fs' p binary_mode) = true →
  Read fs' p = Some data ∧ ReadAllBytes fs' p = Some data.
Proof.
  intros Hw Hopen.
  assert (∃ r, fs' = <[p := Regular data r true]> fs) as [r ->].
  { destruct Hw as [Hw | [Hw | (lines & -> & Hw)]].
    - by apply Write_stored.
    - by apply WriteAllBytes_stored.
    - by apply WriteAllLines_stored. }
  by rewrite Read_lookup, ReadAllBytes_lookup,
    (stored_readable _ _ _ _ _ Hopen).
Qed.

Lemma write_replaces_contents_witness :
  sample_fs !! data_bin = Some (Regular sample_bytes true true) ∧
  Write sample_fs data_bin [x61; x62]
    = ((Write sample_fs data_bin [x61; x62]).1, true) ∧
  Ifstream.is_open
    (Ifstream.open (Write sample_fs data_bin [x61; x62]).1 data_bin binary_mode)
    = true ∧
  Read (Write sample_fs data_bin [x61; x62]).1 data_bin = Some [x61; x62] ∧
  ReadAllBytes (Write sample_fs data_bin [x61; x62]).1 data_bin
    = Some [x61; x62].
Proof.
  do 3 (split; [vm_compute; reflexivity|]).
  apply (write_replaces_contents sample_fs _ data_bin [x61; x62]);
    [left|]; vm_compute; reflexivity.
Defined.

(** * Further properties of the file helpers *)

(** ** Lines of an arbitrary file *)

Lemma extract_until_none (tail : list byte) :
  newline ∉ tail →
  Ifstream.extract_until newline tail = (tail, false).
Proof.
  induction tail as [|c tail IH]; intros Hnl;
    cbn [Ifstream.extract_until]; [done|].
  apply not_elem_of_cons in Hnl as [Hc Hl].
  rewrite decide_False by done. by rewrite IH.
Qed.

(** Every sequence of bytes is a sequence of newline-terminated lines
    followed by characters without a newline. *)
Lemma lines_decomposition (bytes : list byte) :
  ∃ lines tail,
    bytes = terminated_lines lines ++ tail ∧
    Forall (λ l, newline ∉ l) lines ∧ newline ∉ tail.
Proof.
  induction bytes as [|c bytes (lines & tail & -> & Hl & Ht)].
  - exists [], []. repeat split; [constructor | apply not_elem_of_nil].
  - destruct (decide (c = newline)) as [->|Hc].
    + exists ([] :: lines), tail. repeat split; [|done].
      constructor; [apply not_elem_of_nil | done].
    + destruct lines as [|l lines].
      * exists [], (c :: tail). repeat split; [constructor|].
        by apply not_elem_of_cons.
      * exists ((c :: l) :: lines), tail.
        apply Forall_cons in Hl as [Hl Hls]. repeat split; [|done].
        constructor; [by apply not_elem_of_cons | done].
Qed.

(** The loop on newline-terminated lines followed by a last line that
    has no newline. *)
Lemma getline_loop_lines_tail (lines : list (list byte)) :
  ∀ (fuel : nat) (file : ifstream) (line : list byte)
    (acc : list (list byte)) (tail : list byte),
    Ifstream.good file = true →
    0 ≤ gpos file →
    Ifstream.remaining file = terminated_lines lines ++ tail →
    Forall (λ l, newline ∉ l) lines →
    newline ∉ tail →
    (length lines + 1 < fuel)%nat →
    IO.getline_loop fuel file line acc
    = Some (acc ++ lines ++ unterminated_line tail).
Proof.
  induction lines as [|l lines IH];
    intros fuel file line acc tail Hgood Hpos Hrem Hnl Htail Hfuel;
    (destruct fuel as [|fuel]; [simpl in Hfuel; lia|]);
    cbn [IO.getline_loop]; unfold Ifstream.getline;
    rewrite Hgood, Hrem; cbn [negb].
  - change (terminated_lines [] ++ tail) with tail.
    rewrite extract_until_none by done.
    cbn [Ifstream.fail failbit app]. unfold unterminated_line.
    case_bool_decide as Hempty.
    + rewrite decide_True by done. by rewrite app_nil_r.
    + rewrite decide_False by done.
      destruct fuel as [|fuel]; [simpl in Hfuel; lia|].
      cbn [IO.getline_loop]. unfold Ifstream.getline, Ifstream.good.
      cbn [eofbit negb andb Ifstream.fail Ifstream.set_fail failbit].
      done.
  - apply Forall_cons in Hnl as [Hl Hnl].
    change (terminated_lines (l :: lines))
      with ((l ++ [newline]) ++ terminated_lines lines).
    rewrite <- !app_assoc. cbn [app].
    rewrite extract_until_line by done.
    cbn [Ifstream.fail failbit].
    rewrite (cons_middle l acc (lines ++ unterminated_line tail)), app_assoc.
    apply IH; try done.
    + simpl. lia.
    + replace (gpos file + Z.of_nat (length l) + 1)
        with (gpos file + Z.of_nat (length l + 1)) by lia.
      rewrite remaining_advance, Hrem by done.
      change (terminated_lines (l :: lines))
        with ((l ++ [newline]) ++ terminated_lines lines).
      rewrite <- (app_assoc (l ++ [newline])).
      apply drop_app_length'. rewrite length_app. simpl. lia.
    + simpl in Hfuel. lia.
Qed.

Lemma ReadAllLines_regular (fs : gmap (list string) node) (p : list string)
    (lines : list (list byte)) (tail : list byte) w :
  fs !! p = Some (Regular (terminated_lines lines ++ tail) true w) →
  Forall (λ l, newline ∉ l) lines →
  newline ∉ tail →
  IO.ReadAllLines fs p = Some (lines ++ unterminated_line tail).
Proof.
  intros H Hnl Htail. unfold IO.ReadAllLines.
  rewrite (guard_regular _ _ _ _ _ H), (ifstream_open_regular _ _ _ _ _ H).
  cbn [Ifstream.is_open in_open negb in_bytes].
  apply (getline_loop_lines_tail lines _ _ [] []); try done.
  rewrite length_app. pose proof (length_terminated_lines lines). lia.
Qed.

Lemma Read_Some_regular (fs : gmap (list string) node) (p : list string)
    (bytes : list byte) :
  IO.Read fs p = Some bytes → ∃ w, fs !! p = Some (Regular bytes true w).
Proof.
  rewrite Read_lookup.
  destruct (fs !! p) as [[d|bytes' [] w]|]; try discriminate.
  intros [= ->]. eauto.
Qed.

Lemma unterminated_line_no_newline (tail : list byte) :
  newline ∉ tail → Forall (λ l, newline ∉ l) (unterminated_line tail).
Proof.
  intros H. unfold unterminated_line. case_decide; repeat constructor; done.
Qed.

(** The lines read from any readable regular file have no newline. *)
Lemma ReadAllLines_no_newline (fs : gmap (list string) node)
    (p : list string) (bytes : list byte) w :
  fs !! p = Some (Regular bytes true w) →
  ∃ lines : list (list byte),
    IO.ReadAllLines fs p = Some lines ∧ Forall (λ l, newline ∉ l) lines.
Proof.
  intros Hp.
  destruct (lines_decomposition bytes) as (lines & tail & -> & Hl & Ht).
  exists (lines ++ unterminated_line tail).
  split; [by apply (ReadAllLines_regular _ _ _ _ w)|].
  apply Forall_app; split; [done | by apply unterminated_line_no_newline].
Qed.

(** X1: on every file that [Read] can read, [ReadAllLines] returns
    lines without a newline which, each followed by a newline, give
    back the bytes of the file, except that a newline missing at the
    end of the file is not told apart from one that is there. *)
Theorem ReadAllLines_rebuilds_file (fs : gmap (list string) node)
    (p : list string) (bytes : list byte) :
  Read fs p = Some bytes →
  ∃ lines : list (list byte),
    ReadAllLines fs p = Some lines ∧
    Forall (λ l, newline ∉ l) lines ∧
    (bytes = terminated_lines lines ∨
     bytes ++ [newline] = terminated_lines lines).
Proof.
  intros Hread. apply Read_Some_regular in Hread as [w Hp].
  destruct (lines_decomposition bytes) as (lines & tail & -> & Hl & Ht).
  exists (lines ++ unterminated_line tail).
  split; [by apply (ReadAllLines_regular _ _ _ _ w)|].
  split; [apply Forall_app; split;
          [done | by apply unterminated_line_no_newline]|].
  unfold unterminated_line. case_decide as Hempty.
  - left. by rewrite Hempty, !app_nil_r.
  - right. unfold terminated_lines.
    rewrite map_app, concat_app. simpl.
    by rewrite app_nil_r, <- app_assoc.
Qed.

Lemma ReadAllLines_rebuilds_file_witness :
  Read sample_fs ro_txt = Some hello_world ∧
  ∃ lines : list (list byte),
    ReadAllLines sample_fs ro_txt = Some lines ∧
    Forall (λ l, newline ∉ l) lines ∧
    (hello_world = terminated_lines lines ∨
     hello_world ++ [newline] = terminated_lines lines).
Proof.
  split; [vm_compute; reflexivity|].
  apply (ReadAllLines_rebuilds_file sample_fs ro_txt hello_world).
  vm_compute. reflexivity.
Defined.

(** X2: text written with [Write] that consists of lines each ended by
    a newline, followed by characters without a newline, is read back
    by [ReadAllLines] as these lines, and one more line for the
    characters at the end when there are any: the last line of a file
    need not end with a newline, and a newline at the very end does not
    open an empty line. *)
Theorem Write_ReadAllLines (fs fs' : gmap (list string) node)
    (p : list string) (lines : list (list byte)) (tail : list byte) :
  Forall (λ l, newline ∉ l) lines →
  newline ∉ tail →
  Write fs p (terminated_lines lines ++ tail) = (fs', true) →
  Ifstream.is_open (Ifstream.open fs' p text_mode) = true →
  ReadAllLines fs' p = Some (lines ++ unterminated_line tail).
Proof.
  intros Hl Ht Hw Hopen. apply Write_stored in Hw as [r ->].
  apply (ReadAllLines_regular _ _ _ _ true); [|done..].
  by apply stored_readable with text_mode.
Qed.

Lemma no_newline_hello : Forall (λ l, newline ∉ l) [[x68; x65; x6c; x6c; x6f]].
Proof.
  repeat constructor; intros H; apply (bool_decide_pack _) in H;
    vm_compute in H; exact H.
Defined.

Lemma no_newline_world : newline ∉ [x77; x6f; x72; x6c; x64].
Proof.
  intros H; apply (bool_decide_pack _) in H; vm_compute in H; exact H.
Defined.

Lemma Write_ReadAllLines_witness :
  Forall (λ l, newline ∉ l) [[x68; x65; x6c; x6c; x6f]] ∧
  (newline ∉ [x77; x6f; x72; x6c; x64]) ∧
  Write sample_fs tmp_new
    (terminated_lines [[x68; x65; x6c; x6c; x6f]] ++ [x77; x6f; x72; x6c; x64])
    = ((Write sample_fs tmp_new hello_world).1, true) ∧
  Ifstream.is_open
    (Ifstream.open (Write sample_fs tmp_new hello_world).1 tmp_new text_mode)
    = true ∧
  ReadAllLines (Write sample_fs tmp_new hello_world).1 tmp_new
    = Some ([[x68; x65; x6c; x6c; x6f]]
            ++ unterminated_line [x77; x6f; x72; x6c; x64]).
Proof.
  split; [exact no_newline_hello|]. split; [exact no_newline_world|].
  do 2 (split; [vm_compute; reflexivity|]).
  apply (Write_ReadAllLines sample_fs _ tmp_new);
    [exact no_newline_hello | exact no_newline_world
     | vm_compute; reflexivity..].
Defined.

(** X3: the lines [ReadAllLines] returns never contain a newline, so
    [WriteAllLines] followed by [ReadAllLines] can only return the
    lines written when none of them contains a newline. *)
Theorem WriteAllLines_ReadAllLines_only_without_newline
    (fs fs' : gmap (list string) node) (p : list string)
    (lines : list (list byte)) :
  WriteAllLines fs p lines = (fs', true) →
  ReadAllLines fs' p = Some lines →
  Forall (λ l, newline ∉ l) lines.
Proof.
  intros Hw Hr. apply WriteAllLines_stored in Hw as [r ->].
  destruct r.
  - destruct (ReadAllLines_no_newline
                (<[p:=Regular (terminated_lines lines) true true]> fs) p
                (terminated_lines lines) true) as (lines' & Hr' & Hnl);
      [apply lookup_insert_eq|].
    rewrite Hr in Hr'. by injection Hr' as <-.
  - unfold ReadAllLines, FileSystem.exists_, FileSystem.is_directory,
      Ifstream.open in Hr.
    rewrite lookup_insert_eq in Hr. discriminate.
Qed.

Lemma WriteAllLines_ReadAllLines_only_without_newline_witness :
  WriteAllLines sample_fs tmp_new [[x61]; [x62; x63]]
    = ((WriteAllLines sample_fs tmp_new [[x61]; [x62; x63]]).1, true) ∧
  ReadAllLines (WriteAllLines sample_fs tmp_new [[x61]; [x62; x63]]).1 tmp_new
    = Some [[x61]; [x62; x63]] ∧
  Forall (λ l, newline ∉ l) [[x61]; [x62; x63]].
Proof.
  do 2 (split; [vm_compute; reflexivity|]).
  apply (WriteAllLines_ReadAllLines_only_without_newline sample_fs
           (WriteAllLines sample_fs tmp_new [[x61]; [x62; x63]]).1 tmp_new);
    vm_compute; reflexivity.
Defined.

(** ** When reads are present *)



(** ** Blocks and the whole file *)



(** X6: a block read of [n1 + n2] bytes succeeds exactly when the
    read of [n1] bytes at the same offset and the read of [n2] bytes
    right after it both succeed, and its buffer is the two buffers one
    after the other. *)
Theorem ReadBlock_adjacent (fs : gmap (list string) node) (p : list string)
    (blockOffset n1 n2 : N) (buffer : list byte) :
  ReadBlock fs p blockOffset (n1 + n2) = Some buffer ↔
  ∃ b1 b2 : list byte,
    buffer = b1 ++ b2 ∧
    ReadBlock fs p blockOffset n1 = Some b1 ∧
    ReadBlock fs p (blockOffset + n1) n2 = Some b2.
Proof.
  destruct (Ifstream.is_open (Ifstream.open fs p binary_mode)) eqn:Hopen.
  - apply ifstream_open_iff in Hopen as (bytes & w & Hp).
    rewrite !(ReadBlock_regular _ _ _ _ _ _ Hp). cbn zeta.
    rewrite !length_drop, !N2Nat.inj_add.
    rewrite <- (drop_drop bytes (N.to_nat n1) (N.to_nat blockOffset)).
    set (avail := drop (N.to_nat blockOffset) bytes).
    destruct (decide (N.to_nat n1 + N.to_nat n2
                      ≤ length bytes - N.to_nat blockOffset)%nat) as [Hle|Hle];
      destruct (decide (N.to_nat n1
                        ≤ length bytes - N.to_nat blockOffset)%nat) as [Hle1|Hle1];
      destruct (decide (N.to_nat n2
                        ≤ length bytes - (N.to_nat blockOffset + N.to_nat n1))%nat)
        as [Hle2|Hle2];
      try lia;
      (split;
       [ try discriminate
       | try (intros (b1 & b2 & _ & H1 & H2); discriminate) ]).
    + intros [= <-]. eexists _, _. by rewrite take_take_drop.
    + intros (b1 & b2 & -> & [= <-] & [= <-]). by rewrite take_take_drop.
  - rewrite !ReadBlock_unreadable by done.
    split; [discriminate | by intros (? & ? & _ & ? & _)].
Qed.

(** ** What a write does to the file system *)

(** The read permission of the file at [p] once it has been opened for
    output: the one it had, and set for a file that is created. *)
Lemma ofstream_open_cases (fs : gmap (list string) node) (p : list string) :
  (∀ mode, Ofstream.open fs p mode = (fs, mk_ofstream false mode p)) ∨
  (∃ r, (∀ bytes r0 w, fs !! p = Some (Regular bytes r0 w) → r = r0) ∧
        (fs !! p = None → r = true) ∧
        ∀ mode, Ofstream.open fs p mode
                = (<[p := Regular [] r true]> fs, mk_ofstream true mode p)).
Proof.
  unfold Ofstream.open.
  destruct (fs !! p) as [[d|bytes r []]|] eqn:Hp.
  - by left.
  - right. exists r. split; [by intros ? ? ? [= _ <- _]|]. by split.
  - by left.
  - destruct (fs !! FileSystem.parent_path p) as [[[]|? ? ?]|];
      try by left.
    right. exists true. by split.
Qed.

(** The three writes either all fail on a path and change nothing, or
    all succeed and store what they were given. *)
Lemma writes_cases (fs : gmap (list string) node) (p : list string) :
  (∀ (data : list byte) (lines : list (list byte)),
     IO.Write fs p data = (fs, false) ∧
     IO.WriteAllBytes fs p data = (fs, false) ∧
     IO.WriteAllLines fs p lines = (fs, false)) ∨
  (∃ r, (∀ bytes r0 w, fs !! p = Some (Regular bytes r0 w) → r = r0) ∧
        (fs !! p = None → r = true) ∧
        ∀ (data : list byte) (lines : list (list byte)),
          IO.Write fs p data = (<[p := Regular data r true]> fs, true) ∧
          IO.WriteAllBytes fs p data = (<[p := Regular data r true]> fs, true) ∧
          IO.WriteAllLines fs p lines
          = (<[p := Regular (terminated_lines lines) r true]> fs, true)).
Proof.
  destruct (ofstream_open_cases fs p) as [Hfail | (r & Hr & Hnew & Hopen)].
  - left. intros data lines.
    unfold IO.Write, IO.WriteAllBytes, IO.WriteAllLines.
    by rewrite !Hfail.
  - right. exists r. split; [done|]. split; [done|]. intros data lines.
    unfold IO.Write, IO.WriteAllBytes, IO.WriteAllLines.
    rewrite !Hopen. cbn [Ofstream.is_open out_open negb].
    pose proof (write_opened fs (mk_ofstream true text_mode p) data [] r true
                  eq_refl) as Ht.
    pose proof (write_opened fs (mk_ofstream true binary_mode p) data [] r true
                  eq_refl) as Hb.
    pose proof (write_lines_opened lines fs (mk_ofstream true text_mode p)
                  [] r true eq_refl) as Hl.
    cbn [out_path app] in Ht, Hb, Hl. by rewrite Ht, Hb, Hl.
Qed.

(** The reads at a path depend on the entry at this path alone. *)
Lemma reads_local (fs1 fs2 : gmap (list string) node) (q : list string) :
  fs1 !! q = fs2 !! q →
  IO.Read fs1 q = IO.Read fs2 q ∧
  IO.ReadAllBytes fs1 q = IO.ReadAllBytes fs2 q ∧
  IO.ReadAllLines fs1 q = IO.ReadAllLines fs2 q ∧
  ∀ blockOffset blockSize : N,
    IO.ReadBlock fs1 q blockOffset blockSize
    = IO.ReadBlock fs2 q blockOffset blockSize.
Proof.
  intros H.
  unfold IO.Read, IO.ReadAllBytes, IO.ReadAllLines, IO.ReadBlock,
    FileSystem.exists_, FileSystem.is_directory, Ifstream.open.
  by rewrite H.
Qed.

(** X7: a write ([Write], [WriteAllBytes] or [WriteAllLines]),
    whatever flag it returns, changes nothing at any other path: every
    read on another path returns what it returned before. *)
Theorem writes_leave_other_paths (fs fs' : gmap (list string) node)
    (p q : list string) (data : list byte) (lines : list (list byte))
    (ok : bool) :
  Write fs p data = (fs', ok) ∨
  WriteAllBytes fs p data = (fs', ok) ∨
  WriteAllLines fs p lines = (fs', ok) →
  q ≠ p →
  Read fs' q = Read fs q ∧
  ReadAllBytes fs' q = ReadAllBytes fs q ∧
  ReadAllLines fs' q = ReadAllLines fs q ∧
  ∀ blockOffset blockSize : N,
    ReadBlock fs' q blockOffset blockSize = ReadBlock fs q blockOffset blockSize.
Proof.
  intros Hw Hq. apply reads_local.
  destruct (writes_cases fs p) as [Hfail | (r & _ & _ & Hok)].
  - destruct (Hfail data lines) as (H1 & H2 & H3).
    rewrite H1, H2, H3 in Hw. by destruct Hw as [[= <- _]|[[= <- _]|[= <- _]]].
  - destruct (Hok data lines) as (H1 & H2 & H3).
    rewrite H1, H2, H3 in Hw.
    destruct Hw as [[= <- _]|[[= <- _]|[= <- _]]];
      by rewrite lookup_insert_ne.
Qed.

Lemma writes_leave_other_paths_witness :
  Write sample_fs data_bin hello_world
    = ((Write sample_fs data_bin hello_world).1, true) ∧
  ro_txt ≠ data_bin ∧
  Read (Write sample_fs data_bin hello_world).1 ro_txt = Read sample_fs ro_txt.
Proof.
  split; [vm_compute; reflexivity|]. split; [discriminate|].
  apply (writes_leave_other_paths sample_fs _ data_bin ro_txt hello_world []
           true);
    [left; vm_compute; reflexivity | discriminate].
Defined.

(** X8: a write that returns the failure flag has left the whole file
    system as it was: nothing is created, emptied or changed. *)
Theorem failed_write_changes_nothing (fs fs' : gmap (list string) node)
    (p : list string) (data : list byte) (lines : list (list byte)) :
  Write fs p data = (fs', false) ∨
  WriteAllBytes fs p data = (fs', false) ∨
  WriteAllLines fs p lines = (fs', false) →
  fs' = fs.
Proof.
  intros Hw.
  destruct (writes_cases fs p) as [Hfail | (r & _ & _ & Hok)].
  - destruct (Hfail data lines) as (H1 & H2 & H3).
    rewrite H1, H2, H3 in Hw. by destruct Hw as [[= <-]|[[= <-]|[= <-]]].
  - destruct (Hok data lines) as (H1 & H2 & H3).
    rewrite H1, H2, H3 in Hw. by destruct Hw as [[=]|[[=]|[=]]].
Qed.

Lemma failed_write_changes_nothing_witness :
  Write sample_fs ro_txt [x61]
    = ((Write sample_fs ro_txt [x61]).1, false) ∧
  (Write sample_fs ro_txt [x61]).1 = sample_fs.
Proof.
  split; [vm_compute; reflexivity|].
  apply (failed_write_changes_nothing sample_fs _ ro_txt [x61] []).
  left. vm_compute. reflexivity.
Defined.




(** X10: [WriteAllLines] does to the file system, and returns, what
    [Write] does with the text made of every line followed by one
    newline; an empty sequence of lines writes an empty file. *)
Theorem WriteAllLines_as_Write (fs : gmap (list string) node)
    (p : list string) (lines : list (list byte)) :
  WriteAllLines fs p lines = Write fs p (terminated_lines lines) ∧
  WriteAllLines fs p [] = Write fs p [].
Proof.
  destruct (writes_cases fs p) as [Hfail | (r & _ & _ & Hok)].
  - destruct (Hfail (terminated_lines lines) lines) as (-> & _ & ->).
    destruct (Hfail [] []) as (-> & _ & ->). done.
  - destruct (Hok (terminated_lines lines) lines) as (-> & _ & ->).
    destruct (Hok [] []) as (-> & _ & ->). done.
Qed.



(** X12: a write to a path that is a directory, or to a path that has
    no entry and whose parent is not a directory, returns the failure
    flag: the writes create files and never directories. *)
Theorem writes_fail_without_place (fs : gmap (list string) node)
    (p : list string) (data : list byte) (lines : list (list byte)) :
  FileSystem.is_directory fs p = true ∨
  (FileSystem.exists_ fs p = false ∧
   FileSystem.is_directory fs (FileSystem.parent_path p) = false) →
  Write fs p data = (fs, false) ∧
  WriteAllBytes fs p data = (fs, false) ∧
  WriteAllLines fs p lines = (fs, false).
Proof.
  intros H.
  destruct (writes_cases fs p) as [Hfail | (r & _ & _ & Hok)]; [done|].
  exfalso. destruct (Hok [] []) as (H1 & _). revert H1 H.
  unfold Write, Ofstream.open, FileSystem.is_directory, FileSystem.exists_.
  destruct (fs !! p) as [[d|bytes r0 []]|];
    destruct (fs !! FileSystem.parent_path p) as [[[]|? ? ?]|];
    simpl; intros H1 [H | [H H']]; discriminate.
Qed.

Lemma writes_fail_without_place_witness :
  (FileSystem.is_directory sample_fs tmp_dir = true ∧
   Write sample_fs tmp_dir [x61] = (sample_fs, false)) ∧
  (FileSystem.exists_ sample_fs missing = false ∧
   FileSystem.is_directory sample_fs (FileSystem.parent_path missing) = false ∧
   Write sample_fs missing [x61] = (sample_fs, false)).
Proof.
  split.
  - split; [vm_compute; reflexivity|].
    apply (writes_fail_without_place sample_fs tmp_dir [x61] []).
    left. vm_compute. reflexivity.
  - do 2 (split; [vm_compute; reflexivity|]).
    apply (writes_fail_without_place sample_fs missing [x61] []).
    right. split; vm_compute; reflexivity.
Defined.

(** * Properties of the colour helpers *)

(** ** Packing and unpacking bytes *)

Lemma to_int_small (z : Z) : - 2 ^ 31 ≤ z < 2 ^ 31 → Color.to_int z = z.
Proof. intros H. unfold Color.to_int. rewrite Z.mod_small; lia. Qed.

Lemma to_int_mod (z : Z) : Color.to_int z mod 2 ^ 32 = z mod 2 ^ 32.
Proof.
  unfold Color.to_int.
  rewrite Zminus_mod, Zmod_mod, <- Zminus_mod. f_equal. lia.
Qed.

(** Bits that do not overlap add up. *)
Lemma lor_add_disjoint (hi lo k : Z) :
  0 ≤ k → 0 ≤ lo < 2 ^ k → Z.lor (hi * 2 ^ k) lo = hi * 2 ^ k + lo.
Proof.
  intros Hk Hlo.
  assert (Z.land (hi * 2 ^ k) lo = 0) as Hland.
  { apply Z.bits_inj'. intros n Hn.
    rewrite Z.land_spec, Z.bits_0.
    destruct (Z.lt_ge_cases n k) as [Hlt | Hge].
    - by rewrite Z.mul_pow2_bits_low.
    - rewrite <- (Z.mod_small lo (2 ^ k)) by done.
      rewrite Z.mod_pow2_bits_high by lia. apply andb_false_r. }
  by rewrite <- Z.lxor_lor, <- Z.add_nocarry_lxor.
Qed.

(** The value [RGBAToHex] builds from four bytes. *)
Lemma pack_value (r g b a : Z) :
  0 ≤ r < 256 → 0 ≤ g < 256 → 0 ≤ b < 256 → 0 ≤ a < 256 →
  Color.to_u32
    (Z.lor (Z.lor (Z.lor (Color.shl_int a 24) (Color.shl_int r 16))
                  (Color.shl_int g 8)) b)
  = a * 2 ^ 24 + r * 2 ^ 16 + g * 2 ^ 8 + b.
Proof.
  intros Hr Hg Hb Ha. unfold Color.to_u32, Color.shl_int.
  rewrite !Z.shiftl_mul_pow2 by lia.
  rewrite (to_int_small (r * 2 ^ 16)), (to_int_small (g * 2 ^ 8)) by lia.
  rewrite <- !(Z.land_ones _ 32), !Z.land_lor_distr_l, !Z.land_ones by lia.
  rewrite to_int_mod.
  rewrite !Z.mod_small by lia.
  rewrite (lor_add_disjoint a (r * 2 ^ 16) 24) by lia.
  replace (a * 2 ^ 24 + r * 2 ^ 16) with ((a * 2 ^ 8 + r) * 2 ^ 16) by lia.
  rewrite (lor_add_disjoint _ (g * 2 ^ 8) 16) by lia.
  replace ((a * 2 ^ 8 + r) * 2 ^ 16 + g * 2 ^ 8)
    with ((a * 2 ^ 16 + r * 2 ^ 8 + g) * 2 ^ 8) by lia.
  rewrite (lor_add_disjoint _ b 8) by lia. lia.
Qed.

(** A channel byte as the helpers extract it. *)
Lemma channel_byte (hex k : Z) :
  0 ≤ k →
  Color.to_u32 (Color.to_u8 (Z.land (Z.shiftr hex k) 255))
  = (hex / 2 ^ k) mod 256.
Proof.
  intros Hk. unfold Color.to_u32, Color.to_u8.
  change 255 with (Z.ones 8).
  rewrite Z.land_ones, Z.shiftr_div_pow2 by lia.
  change (2 ^ 8) with 256.
  rewrite Zmod_mod. apply Z.mod_small.
  pose proof (Z.mod_pos_bound (hex / 2 ^ k) 256). lia.
Qed.

Lemma channel_byte_0 (hex : Z) :
  Color.to_u32 (Color.to_u8 (Z.land hex 255)) = hex mod 256.
Proof.
  rewrite <- (Z.shiftr_0_r hex) at 1. rewrite channel_byte by lia.
  by rewrite Z.pow_0_r, Z.div_1_r.
Qed.

Lemma HexToRGBA_u32_value (hex : Z) :
  Color.HexToRGBA_u32 hex
  = ((hex / 2 ^ 16) mod 256, (hex / 2 ^ 8) mod 256, hex mod 256,
     (hex / 2 ^ 24) mod 256).
Proof.
  unfold Color.HexToRGBA_u32.
  by rewrite !channel_byte, channel_byte_0 by lia.
Qed.

Lemma bytes_reassemble (hex : Z) :
  0 ≤ hex < 2 ^ 32 →
  (hex / 2 ^ 24) mod 256 * 2 ^ 24 + (hex / 2 ^ 16) mod 256 * 2 ^ 16
  + (hex / 2 ^ 8) mod 256 * 2 ^ 8 + hex mod 256 = hex.
Proof.
  intros H.
  change (2 ^ 24) with 16777216. change (2 ^ 16) with 65536.
  change (2 ^ 8) with 256. change (2 ^ 32) with 4294967296 in H.
  Z.div_mod_to_equations. lia.
Qed.

Lemma bytes_of_sum (r g b a : Z) :
  0 ≤ r < 256 → 0 ≤ g < 256 → 0 ≤ b < 256 → 0 ≤ a < 256 →
  let hex := a * 2 ^ 24 + r * 2 ^ 16 + g * 2 ^ 8 + b in
  (hex / 2 ^ 16) mod 256 = r ∧ (hex / 2 ^ 8) mod 256 = g ∧
  hex mod 256 = b ∧ (hex / 2 ^ 24) mod 256 = a.
Proof.
  intros Hr Hg Hb Ha hex. subst hex.
  change (2 ^ 24) with 16777216. change (2 ^ 16) with 65536.
  change (2 ^ 8) with 256.
  repeat split; Z.div_mod_to_equations; lia.
Qed.

(** X13: the [u32] overload of [HexToRGBA] returns four values below
    256, and they are the four bytes of the colour: alpha in bits 24
    to 31, red in bits 16 to 23, green in bits 8 to 15 and blue in
    bits 0 to 7. *)
Theorem HexToRGBA_u32_bytes (hex : Z) :
  0 ≤ hex < 2 ^ 32 →
  ∃ r g b a : Z,
    Color.HexToRGBA_u32 hex = (r, g, b, a) ∧
    (0 ≤ r < 256 ∧ 0 ≤ g < 256 ∧ 0 ≤ b < 256 ∧ 0 ≤ a < 256) ∧
    hex = a * 2 ^ 24 + r * 2 ^ 16 + g * 2 ^ 8 + b.
Proof.
  intros H. rewrite HexToRGBA_u32_value. eexists _, _, _, _.
  split; [done|]. split; [|by rewrite bytes_reassemble].
  repeat split; apply Z.mod_pos_bound; lia.
Qed.

Lemma HexToRGBA_u32_bytes_witness :
  0 ≤ 4286611584 < 2 ^ 32 ∧
  ∃ r g b a : Z,
    Color.HexToRGBA_u32 4286611584 = (r, g, b, a) ∧
    (0 ≤ r < 256 ∧ 0 ≤ g < 256 ∧ 0 ≤ b < 256 ∧ 0 ≤ a < 256) ∧
    4286611584 = a * 2 ^ 24 + r * 2 ^ 16 + g * 2 ^ 8 + b.
Proof.
  split; [lia|]. apply (HexToRGBA_u32_bytes 4286611584). lia.
Defined.

(** X14: when [RGBAToHex] has a result, it is a [u32] from which the
    [u32] overload of [HexToRGBA] gets back exactly the four bytes
    that [RGBAToHex] made of its channels: the bytes do not overlap,
    and an alpha byte of 128 or more, whose shift by 24 is a negative
    [int], is packed like any other. *)
Theorem RGBAToHex_unpacks (r g b a : spec_float) (hex : Z) :
  Color.RGBAToHex r g b a = Some hex →
  0 ≤ hex < 2 ^ 32 ∧
  ∃ redByte greenByte blueByte alphaByte : Z,
    Color.u8_of_f32 (Color.f32_mul r Color.f32_255) = Some redByte ∧
    Color.u8_of_f32 (Color.f32_mul g Color.f32_255) = Some greenByte ∧
    Color.u8_of_f32 (Color.f32_mul b Color.f32_255) = Some blueByte ∧
    Color.u8_of_f32 (Color.f32_mul a Color.f32_255) = Some alphaByte ∧
    Color.HexToRGBA_u32 hex = (redByte, greenByte, blueByte, alphaByte).
Proof.
  assert (∀ x z, Color.u8_of_f32 x = Some z → 0 ≤ z < 256) as Hbyte.
  { intros x z. unfold Color.u8_of_f32.
    destruct (Color.truncate x) as [t|]; [|discriminate].
    destruct (0 <=? t) eqn:H0; destruct (t <? 2 ^ 8) eqn:H1;
      try discriminate.
    intros [= <-]. apply Z.leb_le in H0. apply Z.ltb_lt in H1. lia. }
  unfold Color.RGBAToHex.
  destruct (Color.u8_of_f32 (Color.f32_mul r Color.f32_255))
    as [redByte|] eqn:Hr; [|discriminate].
  destruct (Color.u8_of_f32 (Color.f32_mul g Color.f32_255))
    as [greenByte|] eqn:Hg; [|discriminate].
  destruct (Color.u8_of_f32 (Color.f32_mul b Color.f32_255))
    as [blueByte|] eqn:Hb; [|discriminate].
  destruct (Color.u8_of_f32 (Color.f32_mul a Color.f32_255))
    as [alphaByte|] eqn:Ha; [|discriminate].
  apply Hbyte in Hr, Hg, Hb, Ha.
  rewrite pack_value by done. intros [= <-]. split; [lia|].
  exists redByte, greenByte, blueByte, alphaByte.
  do 4 (split; [done|]).
  rewrite HexToRGBA_u32_value.
  by destruct (bytes_of_sum redByte greenByte blueByte alphaByte)
    as (-> & -> & -> & ->).
Qed.

Lemma RGBAToHex_unpacks_witness :
  Color.RGBAToHex Color.f32_1 Color.f32_0 Color.f32_1 Color.f32_1
    = Some 4294902015 ∧
  0 ≤ 4294902015 < 2 ^ 32 ∧
  ∃ redByte greenByte blueByte alphaByte : Z,
    Color.u8_of_f32 (Color.f32_mul Color.f32_1 Color.f32_255) = Some redByte ∧
    Color.u8_of_f32 (Color.f32_mul Color.f32_0 Color.f32_255) = Some greenByte ∧
    Color.u8_of_f32 (Color.f32_mul Color.f32_1 Color.f32_255) = Some blueByte ∧
    Color.u8_of_f32 (Color.f32_mul Color.f32_1 Color.f32_255) = Some alphaByte ∧
    Color.HexToRGBA_u32 4294902015
    = (redByte, greenByte, blueByte, alphaByte).
Proof.
  split; [vm_compute; reflexivity|].
  apply (RGBAToHex_unpacks Color.f32_1 Color.f32_0 Color.f32_1 Color.f32_1).
  vm_compute. reflexivity.
Defined.

(** ** Channels as floats *)

(** A property checked on each of the 256 bytes holds of every byte. *)
Lemma byte_cases (f : Z → bool) :
  forallb f (map Z.of_nat (seq 0 256)) = true →
  ∀ z, 0 ≤ z < 256 → f z = true.
Proof.
  intros H z Hz. rewrite forallb_forall in H. apply H.
  apply in_map_iff. exists (Z.to_nat z). split; [lia|].
  apply in_seq. lia.
Qed.

(** Scaling a byte to a float and back gives the byte. *)
Lemma channel_roundtrip (x : Z) :
  0 ≤ x < 256 →
  Color.u8_of_f32
    (Color.f32_mul
       (Color.f32_of_f64 (Color.f64_div (Color.f64_of_u32 x) Color.f64_255))
       Color.f32_255)
  = Some x.
Proof.
  intros Hx.
  assert (forallb
            (λ x, match Color.u8_of_f32
                          (Color.f32_mul
                             (Color.f32_of_f64
                                (Color.f64_div (Color.f64_of_u32 x)
                                               Color.f64_255))
                             Color.f32_255) with
                  | Some z => z =? x
                  | None => false
                  end)
            (map Z.of_nat (seq 0 256)) = true) as Hall
    by (vm_compute; reflexivity).
  pose proof (byte_cases _ Hall x Hx) as H. cbv beta in H.
  destruct (Color.u8_of_f32 _) as [z|]; [|discriminate].
  apply Z.eqb_eq in H. by subst.
Qed.

(** A byte scaled to a float lies between 0 and 1. *)
Lemma channel_unit_interval (x : Z) :
  0 ≤ x < 256 →
  SFleb Color.f32_0
    (Color.f32_of_f64 (Color.f64_div (Color.f64_of_u32 x) Color.f64_255))
  && SFleb
       (Color.f32_of_f64 (Color.f64_div (Color.f64_of_u32 x) Color.f64_255))
       Color.f32_1
  = true.
Proof.
  intros Hx.
  apply (byte_cases
           (λ x, SFleb Color.f32_0
                   (Color.f32_of_f64
                      (Color.f64_div (Color.f64_of_u32 x) Color.f64_255))
                 && SFleb
                      (Color.f32_of_f64
                         (Color.f64_div (Color.f64_of_u32 x) Color.f64_255))
                      Color.f32_1)); [|done].
  vm_compute. reflexivity.
Qed.

(** X15: every channel the [f32] overload of [HexToRGBA] returns is a
    number between 0.0 and 1.0, both included, for every colour. *)
Theorem HexToRGBA_f32_unit_interval (hex : Z) :
  ∃ r g b a : spec_float,
    Color.HexToRGBA_f32 hex = (r, g, b, a) ∧
    Forall (λ c, SFleb Color.f32_0 c = true ∧ SFleb c Color.f32_1 = true)
           [r; g; b; a].
Proof.
  unfold Color.HexToRGBA_f32. eexists _, _, _, _. split; [done|].
  rewrite !channel_byte, channel_byte_0 by lia.
  repeat constructor;
    match goal with
    | |- SFleb _ (Color.f32_of_f64
                    (Color.f64_div (Color.f64_of_u32 ?x) _)) = true =>
        pose proof (channel_unit_interval x) as H
    | |- SFleb (Color.f32_of_f64
                  (Color.f64_div (Color.f64_of_u32 ?x) _)) _ = true =>
        pose proof (channel_unit_interval x) as H
    end;
    apply andb_true_iff in H; try apply H; apply Z.mod_pos_bound; lia.
Qed.

(** X16: [RGBAToHex] applied to the four channels the [f32] overload
    of [HexToRGBA] returns for a colour has a result, and it is this
    colour: no byte is lost in the division by 255.0, the rounding to
    [f32], the multiplication by 255.0f and the truncation. *)
Theorem HexToRGBA_f32_RGBAToHex (hex : Z) :
  0 ≤ hex < 2 ^ 32 →
  ∃ r g b a : spec_float,
    Color.HexToRGBA_f32 hex = (r, g, b, a) ∧
    Color.RGBAToHex r g b a = Some hex.
Proof.
  intros H. unfold Color.HexToRGBA_f32. eexists _, _, _, _. split; [done|].
  rewrite !channel_byte, channel_byte_0 by lia.
  unfold Color.RGBAToHex.
  rewrite !channel_roundtrip by (apply Z.mod_pos_bound; lia).
  rewrite pack_value by (apply Z.mod_pos_bound; lia).
  by rewrite bytes_reassemble.
Qed.

Lemma HexToRGBA_f32_RGBAToHex_witness :
  0 ≤ 2155905279 < 2 ^ 32 ∧
  ∃ r g b a : spec_float,
    Color.HexToRGBA_f32 2155905279 = (r, g, b, a) ∧
    Color.RGBAToHex r g b a = Some 2155905279.
Proof.
  split; [lia|]. apply (HexToRGBA_f32_RGBAToHex 2155905279). lia.
Defined.
